(** * Segment signing and verification of [demo.py] (class [AudioWatermarker])

    A shallow embedding of [AudioWatermarker.segment_and_sign_audio] and
    [AudioWatermarker.verify_audio_segments], together with the pieces of
    the Python runtime they rely on ([int] of a float product, [range],
    slicing, list indexing, [np.concatenate], [try]/[except]).

    The collaborators that live outside the file (librosa's
    [melspectrogram], numpy's [tobytes], the RSA-PSS [sign] and [verify] of
    the [cryptography] package) are taken as a record of functions; every
    call to one of them is recorded in a trace, so that statements of the
    form "before any cryptographic work" can be written down. *)

From Stdlib Require Import ZArith List Bool Lia.
From Stdlib Require Import Strings.Byte.
From Stdlib Require Strings.String.
Import Stdlib.Strings.String.StringSyntax.
Delimit Scope string_scope with string.
From Stdlib Require Import Floats.SpecFloat.
Import ListNotations.
Open Scope Z_scope.

(** ** Python runtime *)

Module Py.

(** The exceptions that the modelled code can meet. *)
Inductive exn : Type :=
| ValueError
| IndexError
| OverflowError
| InvalidSignature
| OtherException.

Inductive result (A : Type) : Type :=
| Ok (a : A)
| Raise (e : exn).
Arguments Ok {A} a.
Arguments Raise {A} e.

(** *** Floats: IEEE-754 binary64, as CPython's [float] *)

Definition float := spec_float.
Definition prec : Z := 53.
Definition emax : Z := 1024.

(** [float(n)] for a Python [int]: correctly rounded, and
    [OverflowError] when the integer is too large. *)
Definition float_of_int (n : Z) : result float :=
  match binary_normalize prec emax n 0 false with
  | S754_infinity _ => Raise OverflowError
  | f => Ok f
  end.

(** [x * n] for a float [x] and an [int] [n]: the int is converted first. *)
Definition float_mul_int (x : float) (n : Z) : result float :=
  match float_of_int n with
  | Ok y => Ok (SFmul prec emax x y)
  | Raise e => Raise e
  end.

(** [int(x)]: truncation towards zero; infinities and NaN raise. *)
Definition int_of_float (x : float) : result Z :=
  match x with
  | S754_zero _ => Ok 0
  | S754_infinity _ => Raise OverflowError
  | S754_nan => Raise ValueError
  | S754_finite s m e =>
      let a := Z.shiftl (Zpos m) e in
      Ok (if s then - a else a)
  end.

(** The float [1.0], the default [segment_duration]. *)
Definition one : float := S754_finite false 4503599627370496 (-52).

(** *** Sequences *)

Definition len {A : Type} (a : list A) : Z := Z.of_nat (length a).

(** [range(start, stop, step)]: a zero step raises when the range is
    built, before the first iteration. *)
Definition range_ (start stop step : Z) : result (list Z) :=
  if step =? 0 then Raise ValueError
  else
    let n :=
      if 0 <? step
      then (if start <? stop then (stop - start - 1) / step + 1 else 0)
      else (if stop <? start then (start - stop - 1) / (- step) + 1 else 0) in
    Ok (map (fun k => start + Z.of_nat k * step) (seq 0 (Z.to_nat n))).

(** Bounds of a slice are clamped to the sequence; negative ones count
    from the end. *)
Definition clamp_index (n i : Z) : Z :=
  if i <? 0 then Z.max (i + n) 0 else Z.min i n.

(** [a[i:j]] *)
Definition slice {A : Type} (a : list A) (i j : Z) : list A :=
  let lo := clamp_index (len a) i in
  let hi := clamp_index (len a) j in
  firstn (Z.to_nat (hi - lo)) (skipn (Z.to_nat lo) a).

(** [a[i]] for the index of an [enumerate], which is never negative. *)
Definition getitem {A : Type} (a : list A) (i : nat) : result A :=
  match nth_error a i with
  | Some x => Ok x
  | None => Raise IndexError
  end.

(** [enumerate(l)] *)
Definition enumerate {A : Type} (l : list A) : list (nat * A) :=
  combine (seq 0 (length l)) l.

(** [np.concatenate(arrays)] along the first axis: an empty list of
    arrays raises [ValueError]. *)
Definition np_concatenate {A : Type} (arrays : list (list A)) : result (list A) :=
  match arrays with
  | [] => Raise ValueError
  | _ => Ok (concat arrays)
  end.

End Py.
Import Py.

Definition bytes : Type := list byte.

(** ** Collaborators outside the file *)

Record Collaborators : Type := {
  sample : Type;
  (** the array returned by [librosa.feature.melspectrogram] *)
  mel : Type;
  (** the state of the random source that PSS draws its salt from *)
  rng : Type;
  (** [librosa.feature.melspectrogram(y=segment, sr=sr)] *)
  melspectrogram : list sample -> Z -> mel;
  (** [ndarray.tobytes()] *)
  tobytes : mel -> bytes;
  (** [private_key.sign(data, PSS(MGF1(SHA256), MAX_LENGTH), SHA256)] *)
  private_key_sign : bytes -> rng -> bytes * rng;
  (** [public_key.verify(signature, data, PSS(...), SHA256)]: returns
      [None] or raises *)
  public_key_verify : bytes -> bytes -> result unit
}.

(** The two keys were generated together: whatever salt is drawn, a
    signature made with the private key verifies with the public key. *)
Definition matching_key_pair (X : Collaborators) : Prop :=
  forall (data : bytes) (r : rng X),
    public_key_verify X (fst (private_key_sign X data r)) data = Ok tt.

(** ** Calls, traces and the monad of the methods *)

Section Watermarker.

Context (X : Collaborators).

Inductive event : Type :=
| EvMel (segment : list (sample X)) (sr : Z)
| EvSign (data : bytes)
| EvVerify (signature data : bytes).

Record world : Type := World {
  entropy : rng X;
  trace : list event
}.

Definition M (A : Type) : Type := world -> result A * world.

Definition ret {A : Type} (a : A) : M A := fun w => (Ok a, w).

Definition bind {A B : Type} (m : M A) (k : A -> M B) : M B :=
  fun w =>
    match m w with
    | (Ok a, w') => k a w'
    | (Raise e, w') => (Raise e, w')
    end.

Definition lift {A : Type} (r : result A) : M A := fun w => (r, w).

(** [try: body / except Exception: handler] *)
Definition try_except {A : Type} (body : M A) (handler : exn -> M A) : M A :=
  fun w =>
    match body w with
    | (Ok a, w') => (Ok a, w')
    | (Raise e, w') => handler e w'
    end.

Definition log (ev : event) (w : world) : world :=
  World (entropy w) (trace w ++ [ev]).

Definition call_melspectrogram (segment : list (sample X)) (sr : Z) : M (mel X) :=
  fun w => (Ok (melspectrogram X segment sr), log (EvMel segment sr) w).

Definition call_sign (data : bytes) : M bytes :=
  fun w =>
    let '(signature, r) := private_key_sign X data (entropy w) in
    (Ok signature, World r (trace w ++ [EvSign data])).

Definition call_verify (signature data : bytes) : M unit :=
  fun w => (public_key_verify X signature data, log (EvVerify signature data) w).

Notation "x <- m ;; k" := (bind m (fun x => k))
  (at level 61, m at next level, right associativity).
Notation "' p <- m ;; k" := (bind m (fun x => let p := x in k))
  (at level 61, p pattern, m at next level, right associativity).

(** ** [segment_and_sign_audio] *)

(** [segment_length = int(segment_duration * sr)] *)
Definition segment_length_of (segment_duration : float) (sr : Z) : result Z :=
  match float_mul_int segment_duration sr with
  | Ok p => int_of_float p
  | Raise e => Raise e
  end.

(** The body of the [for start in range(...)] loop, iterated over the
    values of the range, with the two lists it appends to. *)
Fixpoint sign_loop (audio_data : list (sample X)) (sr segment_length : Z)
    (starts : list Z)
    (signed_segments : list (list (sample X))) (segment_signatures : list bytes)
    : M (list (list (sample X)) * list bytes) :=
  match starts with
  | [] => ret (signed_segments, segment_signatures)
  | start :: rest =>
      let segment := slice audio_data start (start + segment_length) in
      mel_spectrogram <- call_melspectrogram segment sr ;;
      let segment_bytes := tobytes X mel_spectrogram in
      signature <- call_sign segment_bytes ;;
      sign_loop audio_data sr segment_length rest
        (signed_segments ++ [segment]) (segment_signatures ++ [signature])
  end.

Definition segment_and_sign_audio (audio_data : list (sample X)) (sr : Z)
    (segment_duration : float) : M (list (sample X) * list bytes) :=
  segment_length <- lift (segment_length_of segment_duration sr) ;;
  starts <- lift (range_ 0 (len audio_data) segment_length) ;;
  '(signed_segments, segment_signatures) <-
    sign_loop audio_data sr segment_length starts [] [] ;;
  signed_waveform <- lift (np_concatenate signed_segments) ;;
  ret (signed_waveform, segment_signatures).

(** ** [verify_audio_segments] *)

Fixpoint verify_loop (signed_waveform : list (sample X)) (sr segment_length : Z)
    (segment_signatures : list bytes)
    (items : list (nat * Z)) (verification_results : list bool)
    : M (list bool) :=
  match items with
  | [] => ret verification_results
  | (i, start) :: rest =>
      let segment := slice signed_waveform start (start + segment_length) in
      mel_spectrogram <- call_melspectrogram segment sr ;;
      let segment_bytes := tobytes X mel_spectrogram in
      ok <- try_except
              (signature <- lift (getitem segment_signatures i) ;;
               _ <- call_verify signature segment_bytes ;;
               ret true)
              (fun _ => ret false) ;;
      verify_loop signed_waveform sr segment_length segment_signatures rest
        (verification_results ++ [ok])
  end.

Definition verify_audio_segments (signed_waveform : list (sample X)) (sr : Z)
    (segment_signatures : list bytes) (segment_duration : float)
    : M (list bool) :=
  segment_length <- lift (segment_length_of segment_duration sr) ;;
  starts <- lift (range_ 0 (len signed_waveform) segment_length) ;;
  verify_loop signed_waveform sr segment_length segment_signatures
    (enumerate starts) [].

End Watermarker.

Arguments World {X} entropy trace.
Arguments entropy {X} w.
Arguments trace {X} w.
Arguments EvMel {X} segment sr.
Arguments EvSign {X} data.
Arguments EvVerify {X} signature data.

(** ** Chunks of a waveform *)

(** [ceil(n / L)] for [L >= 1]. *)
Definition num_chunks (n L : Z) : Z := (n + L - 1) / L.

(** The samples the loops slice out at their [i]-th iteration, when the
    range counts up in steps of [L]. *)
Definition chunk {A : Type} (W : list A) (L : Z) (i : nat) : list A :=
  slice W (Z.of_nat i * L) (Z.of_nat i * L + L).

Definition chunks {A : Type} (W : list A) (L : Z) : list (list A) :=
  map (chunk W L) (seq 0 (Z.to_nat (num_chunks (len W) L))).

(** ** What a run computes and what it leaves in the trace *)

Section RunDefs.

Context (X : Collaborators).

(** The bytes both loops derive from a segment. *)
Definition segment_bytes_of (sr : Z) (segment : list (sample X)) : bytes :=
  tobytes X (melspectrogram X segment sr).

(** Signing a list of messages in order, threading the random source. *)
Fixpoint sign_all (msgs : list bytes) (r : rng X) : list bytes * rng X :=
  match msgs with
  | [] => ([], r)
  | m :: ms =>
      let '(s, r') := private_key_sign X m r in
      let '(ss, r'') := sign_all ms r' in
      (s :: ss, r'')
  end.

(** The boolean the [try]/[except] of the verify loop appends. *)
Definition verdict (sigs : list bytes) (i : nat) (data : bytes) : bool :=
  match nth_error sigs i with
  | Some signature =>
      match public_key_verify X signature data with
      | Ok _ => true
      | Raise _ => false
      end
  | None => false
  end.

Definition sign_events (sr : Z) (segs : list (list (sample X))) : list (event X) :=
  flat_map (fun seg => [EvMel seg sr; EvSign (segment_bytes_of sr seg)]) segs.

Definition verify_events (sigs : list bytes) (sr : Z)
    (items : list (nat * list (sample X))) : list (event X) :=
  flat_map (fun '(i, seg) =>
              EvMel seg sr ::
              match nth_error sigs i with
              | Some signature => [EvVerify signature (segment_bytes_of sr seg)]
              | None => []
              end) items.


Definition signed_data (tr : list (event X)) : list bytes :=
  flat_map (fun ev => match ev with EvSign data => [data] | _ => [] end) tr.

Definition verified_data (tr : list (event X)) : list bytes :=
  flat_map (fun ev => match ev with EvVerify _ data => [data] | _ => [] end) tr.

Definition crypto_calls (tr : list (event X)) : list (event X) :=
  filter (fun ev => match ev with EvMel _ _ => false | _ => true end) tr.

End RunDefs.

(** ** Configuration errors, as the specification has them *)

(** C7 as the specification words it: a rate that is not positive, and a
    number of signatures that differs from the number of chunks, make the
    call fail, and no signing or verification has been attempted by
    then. *)
Definition configuration_errors_are_fatal (X : Collaborators) : Prop :=
  (forall (W : list (sample X)) (sr : Z) (d : float) (w : world X),
     sr <= 0 ->
     exists e w',
       segment_and_sign_audio X W sr d w = (Raise e, w') /\
       crypto_calls X (trace w') = crypto_calls X (trace w)) /\
  (forall (W : list (sample X)) (sr : Z) (sigs : list bytes) (d : float) (L : Z)
          (w : world X),
     segment_length_of d sr = Ok L ->
     sr <= 0 \/ len sigs <> num_chunks (len W) L ->
     exists e w',
       verify_audio_segments X W sr sigs d w = (Raise e, w') /\
       crypto_calls X (trace w') = crypto_calls X (trace w)).

(** ** A small instance of the collaborators, to run the methods on *)

Module Toy.

Definition byte_of_Z (z : Z) : byte :=
  match Byte.of_N (Z.to_N (z mod 256)) with
  | Some b => b
  | None => x00
  end.

Fixpoint bytes_eqb (a b : bytes) : bool :=
  match a, b with
  | [], [] => true
  | x :: a', y :: b' => Byte.eqb x y && bytes_eqb a' b'
  | _, _ => false
  end.

(** Samples are integers, the feature array is the segment followed by
    the rate, a signature is a salt byte in front of the signed data, and
    the random source is a counter. *)
Definition X : Collaborators := {|
  sample := Z;
  mel := list Z;
  rng := Z;
  melspectrogram := fun segment sr => segment ++ [sr];
  tobytes := map byte_of_Z;
  private_key_sign := fun data r => (byte_of_Z r :: data, r + 1);
  public_key_verify := fun signature data =>
    match signature with
    | _ :: d => if bytes_eqb d data then Ok tt else Raise InvalidSignature
    | [] => Raise InvalidSignature
    end
|}.

Definition w0 : world X := World (X := X) 7 [].

End Toy.

(** ** The interface around the watermarker: [process_audio] *)

(** [str(b)] and [str(l)] for a list of booleans, as shown in the
    "Verification Results" box. *)
Definition str_bool (b : bool) : String.string :=
  if b then "True"%string else "False"%string.

Fixpoint join_comma (items : list String.string) : String.string :=
  match items with
  | [] => String.EmptyString
  | [x] => x
  | x :: rest => String.append x (String.append ", " (join_comma rest))
  end.

Definition str_list_bool (l : list bool) : String.string :=
  String.append "[" (String.append (join_comma (map str_bool l)) "]").

(** What the interface adds to the collaborators: the element type of the
    uploaded array with its conversion by [astype(np.float32)], and the
    plotting of a mel spectrogram into a PNG buffer ([power_to_db],
    [specshow], [colorbar], [savefig]). *)
Record Frontend (X : Collaborators) : Type := {
  raw : Type;
  image : Type;
  astype_float32 : raw -> sample X;
  render : mel X -> Z -> image
}.
Arguments raw {X} f.
Arguments image {X} f.
Arguments astype_float32 {X} f.
Arguments render {X} f.

Section Interface.

Context (X : Collaborators) (F : Frontend X).

(** [visualize_mel_spectrogram]: one mel spectrogram of the whole
    waveform, plotted. *)
Definition visualize_mel_spectrogram (audio_data : list (sample X)) (sr : Z)
    : M X (image F) :=
  bind X (call_melspectrogram X audio_data sr)
    (fun mel_spec => ret X (render F mel_spec sr)).

(** The state [process_audio] works on: the world of the watermarker and
    the files written by [sf.write]. *)
Record app_state : Type := AppState {
  core : world X;
  written : list (String.string * list (sample X) * Z)
}.

Definition App (A : Type) : Type := app_state -> result A * app_state.

Definition app_ret {A : Type} (a : A) : App A := fun s => (Ok a, s).

Definition app_bind {A B : Type} (m : App A) (k : A -> App B) : App B :=
  fun s =>
    match m s with
    | (Ok a, s') => k a s'
    | (Raise e, s') => (Raise e, s')
    end.

(** A method of the watermarker, run from the interface. *)
Definition in_core {A : Type} (m : M X A) : App A :=
  fun s =>
    let '(r, w') := m (core s) in
    (r, AppState w' (written s)).

(** [sf.write(path, data, sr)] *)
Definition sf_write (path : String.string) (data : list (sample X)) (sr : Z) : App unit :=
  fun s => (Ok tt, AppState (core s) (written s ++ [(path, data, sr)])).

Definition process_audio (audio_input : Z * list (raw F))
    : App (String.string * String.string * image F * image F) :=
  let '(sr, audio_data) := audio_input in
  let audio_data := map (astype_float32 F) audio_data in
  app_bind (in_core (segment_and_sign_audio X audio_data sr one))
    (fun '(signed_waveform, segment_signatures) =>
  app_bind (in_core (verify_audio_segments X signed_waveform sr
                       segment_signatures one))
    (fun verification_results =>
  app_bind (in_core (visualize_mel_spectrogram audio_data sr))
    (fun orig_spectrogram =>
  app_bind (in_core (visualize_mel_spectrogram signed_waveform sr))
    (fun signed_spectrogram =>
  let signed_audio_path := "signed_audio.wav"%string in
  app_bind (sf_write signed_audio_path signed_waveform sr)
    (fun _ =>
  app_ret (signed_audio_path, str_list_bool verification_results,
           orig_spectrogram, signed_spectrogram)))))).

End Interface.

Arguments AppState {X} core written.
Arguments core {X} a.
Arguments written {X} a.

(** A front end for the small instance: the upload holds integers, which
    the conversion keeps, and a plot is the feature array with the rate. *)
Definition toy_frontend : Frontend Toy.X :=
  Build_Frontend Toy.X Z (list Z * Z)%type
    (fun z : Z => z)
    (fun (m : list Z) (sr : Z) => (m, sr)).

(** ** The segment length *)

(** With the default duration the segment length is the rate. *)
Example segment_length_default_16000 : segment_length_of one 16000 = Ok 16000.
Proof. reflexivity. Qed.

(** The product is a float product: a third of a second (the float
    [6004799503160661 * 2^-54]) at 48000 Hz gives 16000 samples, although
    the exact product lies just below 16000. *)
Example segment_length_rounded_product :
  segment_length_of (S754_finite false 6004799503160661 (-54)) 48000 = Ok 16000 /\
  6004799503160661 * 48000 < 16000 * 2 ^ 54.
Proof. split; reflexivity. Qed.

(** [int] truncates; on a result of at least one that is the floor of the
    float it is applied to. *)
Lemma int_of_float_floor (p : float) (L : Z) :
  int_of_float p = Ok L -> 1 <= L ->
  exists m e,
    p = S754_finite false m e /\
    L = if 0 <=? e then Zpos m * 2 ^ e else Zpos m / 2 ^ (- e).
Proof.
  intros H HL. destruct p as [s|s| |s m e]; simpl in H; try discriminate.
  - injection H as <-. lia.
  - injection H as <-.
    assert (Hsh : 0 <= Z.shiftl (Zpos m) e) by (apply Z.shiftl_nonneg; lia).
    destruct s; [lia|].
    exists m, e. split; [reflexivity|].
    destruct (Z.leb_spec 0 e) as [He|He].
    + apply Z.shiftl_mul_pow2; assumption.
    + rewrite <- Z.shiftr_opp_r. apply Z.shiftr_div_pow2. lia.
Qed.

Section ListFacts.

Context {A : Type}.

Lemma firstn_plus (a b : nat) (l : list A) :
  firstn (a + b) l = firstn a l ++ firstn b (skipn a l).
Proof.
  revert l; induction a as [|a IH]; intros l; simpl.
  - reflexivity.
  - destruct l as [|x l]; simpl.
    + now rewrite firstn_nil.
    + now rewrite IH.
Qed.

Lemma skipn_plus (a b : nat) (l : list A) :
  skipn (a + b) l = skipn b (skipn a l).
Proof.
  revert l; induction a as [|a IH]; intros l; simpl.
  - reflexivity.
  - destruct l as [|x l]; simpl.
    + now rewrite skipn_nil.
    + apply IH.
Qed.

Lemma map_const_repeat {B : Type} (f : A -> B) (c : B) (l : list A) :
  (forall x, In x l -> f x = c) -> map f l = repeat c (length l).
Proof.
  induction l as [|x l IH]; simpl; intros H.
  - reflexivity.
  - rewrite (H x) by now left. f_equal. apply IH. intros y Hy. apply H. now right.
Qed.

Lemma nth_error_combine_seq (l : list A) (a i : nat) :
  nth_error (combine (seq a (length l)) l) i =
  option_map (pair (a + i)%nat) (nth_error l i).
Proof.
  revert a i; induction l as [|x l IH]; intros a i; simpl.
  - now destruct i.
  - destruct i as [|i]; simpl.
    + now rewrite Nat.add_0_r.
    + rewrite IH. now rewrite Nat.add_succ_r.
Qed.

Lemma nth_error_enumerate (l : list A) (i : nat) :
  nth_error (enumerate l) i = option_map (pair i) (nth_error l i).
Proof. apply (nth_error_combine_seq l 0 i). Qed.

Lemma length_enumerate (l : list A) : length (enumerate l) = length l.
Proof.
  unfold enumerate. rewrite length_combine, length_seq. apply Nat.min_id.
Qed.

Lemma In_enumerate (l : list A) (i : nat) (x : A) :
  In (i, x) (enumerate l) -> nth_error l i = Some x.
Proof.
  intros H. apply In_nth_error in H. destruct H as [k Hk].
  rewrite nth_error_enumerate in Hk.
  destruct (nth_error l k) as [y|] eqn:E; simpl in Hk; [|discriminate].
  injection Hk as -> ->. exact E.
Qed.

(** *** Slices taken by the loops *)

Lemma slice_firstn_skipn (W : list A) (i L : Z) :
  0 <= i -> 0 <= L ->
  slice W i (i + L) = firstn (Z.to_nat L) (skipn (Z.to_nat i) W).
Proof.
  intros Hi HL. unfold slice, clamp_index, len.
  destruct (Z.ltb_spec i 0) as [?|_]; [lia|].
  destruct (Z.ltb_spec (i + L) 0) as [?|_]; [lia|].
  destruct (Z_le_gt_dec i (Z.of_nat (length W))) as [Hin|Hout].
  - rewrite (Z.min_l i) by lia.
    destruct (Z_le_gt_dec (i + L) (Z.of_nat (length W))) as [Hfull|Hshort].
    + rewrite Z.min_l by lia. do 2 f_equal. lia.
    + rewrite Z.min_r by lia.
      rewrite !firstn_all2; try reflexivity; rewrite length_skipn; lia.
  - rewrite !Z.min_r by lia.
    rewrite (skipn_all2 (n := Z.to_nat i)) by lia.
    rewrite Z.sub_diag. simpl. now rewrite firstn_nil.
Qed.

Lemma chunk_firstn_skipn (W : list A) (L : Z) (i : nat) :
  1 <= L ->
  chunk W L i = firstn (Z.to_nat L) (skipn (i * Z.to_nat L) W).
Proof.
  intros HL. unfold chunk. rewrite slice_firstn_skipn by lia.
  do 2 f_equal. rewrite Z2Nat.inj_mul by lia. now rewrite Nat2Z.id.
Qed.

Lemma concat_chunks_from (W : list A) (L : Z) (n a : nat) :
  1 <= L ->
  concat (map (chunk W L) (seq a n)) =
  firstn (n * Z.to_nat L) (skipn (a * Z.to_nat L) W).
Proof.
  intros HL. revert a; induction n as [|n IH]; intros a; simpl.
  - reflexivity.
  - rewrite IH, chunk_firstn_skipn by assumption.
    rewrite firstn_plus. f_equal. f_equal.
    rewrite <- skipn_plus. f_equal. lia.
Qed.

End ListFacts.

(** *** The range of the loops *)

Lemma num_chunks_bounds (n L : Z) :
  0 <= n -> 1 <= L ->
  n <= num_chunks n L * L < n + L.
Proof.
  intros Hn HL. unfold num_chunks.
  pose proof (Z.div_mod (n + L - 1) L ltac:(lia)) as E.
  pose proof (Z.mod_pos_bound (n + L - 1) L ltac:(lia)) as B.
  nia.
Qed.

Lemma num_chunks_nonneg (n L : Z) : 0 <= n -> 1 <= L -> 0 <= num_chunks n L.
Proof. intros. unfold num_chunks. apply Z.div_pos; lia. Qed.

Lemma num_chunks_pos (n L : Z) : 1 <= n -> 1 <= L -> 1 <= num_chunks n L.
Proof. intros Hn HL. pose proof (num_chunks_bounds n L ltac:(lia) HL). nia. Qed.

Lemma range_chunk_starts (n L : Z) :
  0 <= n -> 1 <= L ->
  range_ 0 n L =
  Ok (map (fun k => Z.of_nat k * L) (seq 0 (Z.to_nat (num_chunks n L)))).
Proof.
  intros Hn HL. unfold range_.
  destruct (Z.eqb_spec L 0) as [?|_]; [lia|].
  destruct (Z.ltb_spec 0 L) as [_|?]; [|lia].
  f_equal.
  replace (if 0 <? n then (n - 0 - 1) / L + 1 else 0) with (num_chunks n L).
  - apply map_ext. intros k. apply Z.add_0_l.
  - unfold num_chunks. destruct (Z.ltb_spec 0 n) as [Hp|Hz].
    + replace (n + L - 1) with (n - 0 - 1 + 1 * L) by lia.
      now rewrite Z.div_add by lia.
    + replace n with 0 by lia. simpl. apply Z.div_small. lia.
Qed.

Lemma range_negative_step (n L : Z) : 0 <= n -> L < 0 -> range_ 0 n L = Ok [].
Proof.
  intros Hn HL. unfold range_.
  destruct (Z.eqb_spec L 0) as [?|_]; [lia|].
  destruct (Z.ltb_spec 0 L) as [?|_]; [lia|].
  destruct (Z.ltb_spec n 0) as [?|_]; [lia|]. reflexivity.
Qed.


Lemma enumerate_map_from {A B : Type} (f : A -> B) (l : list A) (a : nat) :
  combine (seq a (length (map f l))) (map f l) =
  map (fun '(i, x) => (i, f x)) (combine (seq a (length l)) l).
Proof.
  revert a; induction l as [|x l IH]; intros a; simpl.
  - reflexivity.
  - f_equal. apply IH.
Qed.

Lemma enumerate_map {A B : Type} (f : A -> B) (l : list A) :
  enumerate (map f l) = map (fun '(i, x) => (i, f x)) (enumerate l).
Proof. apply enumerate_map_from. Qed.

(** ** The two loops, run *)

Section Runs.

Context (X : Collaborators).

Lemma sign_all_length (msgs : list bytes) (r : rng X) :
  length (fst (sign_all X msgs r)) = length msgs.
Proof.
  revert r; induction msgs as [|m ms IH]; intros r; simpl.
  - reflexivity.
  - destruct (private_key_sign X m r) as [s r'].
    specialize (IH r'). destruct (sign_all X ms r') as [ss r'']. simpl in *.
    now rewrite IH.
Qed.

(** Every signature of [sign_all] was made by the private key on the
    message at the same position. *)
Lemma sign_all_nth (msgs : list bytes) (r : rng X) (i : nat) (m : bytes) :
  nth_error msgs i = Some m ->
  exists r', nth_error (fst (sign_all X msgs r)) i =
             Some (fst (private_key_sign X m r')).
Proof.
  revert r i; induction msgs as [|m0 ms IH]; intros r i H.
  - destruct i; discriminate.
  - simpl. destruct (private_key_sign X m0 r) as [s r'] eqn:Es.
    specialize (IH r'). destruct (sign_all X ms r') as [ss r''].
    destruct i as [|i]; simpl in *.
    + injection H as <-. exists r. now rewrite Es.
    + apply (IH i H).
Qed.

Lemma sign_loop_run (W : list (sample X)) (sr L : Z) (starts : list Z) :
  forall (acc_segments : list (list (sample X))) (acc_signatures : list bytes)
         (w : world X),
    let segs := map (fun start => slice W start (start + L)) starts in
    let out := sign_all X (map (segment_bytes_of X sr) segs) (entropy w) in
    sign_loop X W sr L starts acc_segments acc_signatures w =
    (Ok (acc_segments ++ segs, acc_signatures ++ fst out),
     World (snd out) (trace w ++ sign_events X sr segs)).
Proof.
  induction starts as [|start rest IH]; intros accS accG w; simpl.
  - unfold ret. rewrite !app_nil_r. now destruct w.
  - unfold bind at 1. unfold call_melspectrogram.
    unfold bind at 1. unfold call_sign, log. simpl.
    fold (segment_bytes_of X sr (slice W start (start + L))).
    destruct (private_key_sign X _ (entropy w)) as [s r'].
    rewrite IH. simpl.
    destruct (sign_all X _ r') as [ss r'']. simpl.
    rewrite <- !app_assoc. reflexivity.
Qed.

Lemma verify_loop_run (W : list (sample X)) (sr L : Z) (sigs : list bytes)
    (items : list (nat * Z)) :
  forall (acc : list bool) (w : world X),
    verify_loop X W sr L sigs items acc w =
    (Ok (acc ++ map (fun '(i, start) =>
                       verdict X sigs i
                         (segment_bytes_of X sr (slice W start (start + L))))
                    items),
     World (entropy w)
       (trace w ++
        verify_events X sigs sr
          (map (fun '(i, start) => (i, slice W start (start + L))) items))).
Proof.
  induction items as [|[i start] rest IH]; intros acc w; simpl.
  - unfold ret. rewrite !app_nil_r. now destruct w.
  - unfold bind at 1. unfold call_melspectrogram.
    unfold bind at 1. unfold try_except, bind, lift, getitem, call_verify, ret, log.
    unfold verdict. simpl.
    fold (segment_bytes_of X sr (slice W start (start + L))).
    destruct (nth_error sigs i) as [sg|]; simpl.
    + destruct (public_key_verify X sg _); simpl;
        rewrite IH; simpl; rewrite <- !app_assoc; reflexivity.
    + rewrite IH; simpl; rewrite <- !app_assoc; reflexivity.
Qed.

Lemma slices_are_chunks (W : list (sample X)) (L : Z) (n : nat) :
  map (fun start => slice W start (start + L))
      (map (fun k => Z.of_nat k * L) (seq 0 n)) =
  map (chunk W L) (seq 0 n).
Proof. rewrite map_map. reflexivity. Qed.

Lemma chunks_length (W : list (sample X)) (L : Z) :
  length (chunks W L) = Z.to_nat (num_chunks (len W) L).
Proof. unfold chunks. now rewrite length_map, length_seq. Qed.

Lemma concat_chunks (W : list (sample X)) (L : Z) :
  1 <= L -> concat (chunks W L) = W.
Proof.
  intros HL. unfold chunks. rewrite concat_chunks_from by assumption.
  simpl. apply firstn_all2.
  pose proof (num_chunks_bounds (len W) L ltac:(unfold len; lia) HL) as B.
  unfold len in *. nia.
Qed.

Lemma chunks_nth (W : list (sample X)) (L : Z) (i : nat) :
  (i < Z.to_nat (num_chunks (len W) L))%nat ->
  nth_error (chunks W L) i = Some (chunk W L i).
Proof.
  intros Hi. unfold chunks.
  rewrite nth_error_map, nth_error_seq.
  destruct (Nat.ltb_spec i (Z.to_nat (num_chunks (len W) L))); [reflexivity|lia].
Qed.

Lemma np_concatenate_chunks (W : list (sample X)) (L : Z) :
  1 <= L -> W <> [] -> np_concatenate (chunks W L) = Ok W.
Proof.
  intros Hpos Hne. unfold np_concatenate.
  destruct (chunks W L) as [|c cs] eqn:E.
  - exfalso. apply (f_equal (@length _)) in E. rewrite chunks_length in E.
    simpl in E.
    assert (1 <= len W) by (unfold len; destruct W; [congruence|simpl; lia]).
    pose proof (num_chunks_pos (len W) L ltac:(assumption) Hpos). lia.
  - rewrite <- E. now rewrite concat_chunks.
Qed.

(** The sign method for a segment length of at least one: the loop runs
    over the chunks, then the concatenation decides the outcome. *)
Lemma sign_run_any (W : list (sample X)) (sr : Z) (d : float) (L : Z) (w : world X) :
  segment_length_of d sr = Ok L -> 1 <= L ->
  let out := sign_all X (map (segment_bytes_of X sr) (chunks W L)) (entropy w) in
  segment_and_sign_audio X W sr d w =
  (match np_concatenate (chunks W L) with
   | Ok signed_waveform => Ok (signed_waveform, fst out)
   | Raise e => Raise e
   end,
   World (snd out) (trace w ++ sign_events X sr (chunks W L))).
Proof.
  intros HL Hpos. simpl.
  unfold segment_and_sign_audio. unfold bind at 1. unfold lift at 1. rewrite HL.
  unfold bind at 1. unfold lift at 1.
  rewrite range_chunk_starts by (unfold len; lia).
  unfold bind at 1. rewrite sign_loop_run. rewrite slices_are_chunks.
  fold (chunks W L). simpl.
  unfold bind, lift, ret.
  destruct (np_concatenate (chunks W L)); reflexivity.
Qed.

(** The sign method on a waveform with at least one sample. *)
Lemma sign_run (W : list (sample X)) (sr : Z) (d : float) (L : Z) (w : world X) :
  segment_length_of d sr = Ok L -> 1 <= L -> W <> [] ->
  let out := sign_all X (map (segment_bytes_of X sr) (chunks W L)) (entropy w) in
  segment_and_sign_audio X W sr d w =
  (Ok (W, fst out), World (snd out) (trace w ++ sign_events X sr (chunks W L))).
Proof.
  intros HL Hpos Hne. simpl.
  rewrite (sign_run_any W sr d L w HL Hpos).
  now rewrite np_concatenate_chunks.
Qed.

(** The verify method, whatever signatures it is given. *)
Lemma verify_run (W : list (sample X)) (sr : Z) (sigs : list bytes) (d : float)
    (L : Z) (w : world X) :
  segment_length_of d sr = Ok L -> 1 <= L ->
  verify_audio_segments X W sr sigs d w =
  (Ok (map (fun '(i, seg) => verdict X sigs i (segment_bytes_of X sr seg))
           (enumerate (chunks W L))),
   World (entropy w)
     (trace w ++ verify_events X sigs sr (enumerate (chunks W L)))).
Proof.
  intros HL Hpos.
  unfold verify_audio_segments. unfold bind at 1. unfold lift at 1. rewrite HL.
  unfold bind at 1. unfold lift at 1.
  rewrite range_chunk_starts by (unfold len; lia).
  rewrite verify_loop_run. simpl.
  unfold chunks. rewrite !enumerate_map, !map_map.
  f_equal; [f_equal|f_equal; f_equal; f_equal];
    apply map_ext; intros [i k]; reflexivity.
Qed.

(** *** Traces of the loops *)


Lemma signed_data_sign_events (sr : Z) (segs : list (list (sample X))) :
  signed_data X (sign_events X sr segs) = map (segment_bytes_of X sr) segs.
Proof.
  induction segs as [|seg segs IH]; simpl; [reflexivity|]. now rewrite IH.
Qed.

Lemma crypto_calls_sign_events (sr : Z) (segs : list (list (sample X))) :
  crypto_calls X (sign_events X sr segs) =
  map (fun seg => EvSign (segment_bytes_of X sr seg)) segs.
Proof.
  induction segs as [|seg segs IH]; simpl; [reflexivity|]. now rewrite IH.
Qed.




(** When no signature is missing, the verify loop hands to [verify] the
    bytes of every segment, in order. *)
Lemma verified_data_verify_events_from (sigs : list bytes) (sr : Z)
    (segs : list (list (sample X))) (a : nat) :
  (a + length segs <= length sigs)%nat ->
  verified_data X (verify_events X sigs sr (combine (seq a (length segs)) segs)) =
  map (segment_bytes_of X sr) segs.
Proof.
  revert a; induction segs as [|seg segs IH]; intros a Hlen; simpl in *.
  - reflexivity.
  - destruct (nth_error sigs a) as [sg|] eqn:E.
    + simpl. f_equal. apply IH. lia.
    + apply nth_error_None in E. lia.
Qed.

(** *** Chunk sizes *)


Lemma verify_results_nth (W : list (sample X)) (sr L : Z) (sigs : list bytes)
    (i : nat) :
  (i < Z.to_nat (num_chunks (len W) L))%nat ->
  nth_error (map (fun '(i, seg) => verdict X sigs i (segment_bytes_of X sr seg))
                 (enumerate (chunks W L))) i =
  Some (verdict X sigs i (segment_bytes_of X sr (chunk W L i))).
Proof.
  intros Hi. rewrite nth_error_map, nth_error_enumerate, chunks_nth by assumption.
  reflexivity.
Qed.

Lemma verify_results_length (W : list (sample X)) (sr L : Z) (sigs : list bytes) :
  length (map (fun '(i, seg) => verdict X sigs i (segment_bytes_of X sr seg))
              (enumerate (chunks W L))) =
  Z.to_nat (num_chunks (len W) L).
Proof. now rewrite length_map, length_enumerate, chunks_length. Qed.

(** *** Segment lengths below one *)

Lemma sign_run_negative (W : list (sample X)) (sr : Z) (d : float) (L : Z)
    (w : world X) :
  segment_length_of d sr = Ok L -> L < 0 ->
  segment_and_sign_audio X W sr d w = (Raise ValueError, w).
Proof.
  intros HL Hneg. unfold segment_and_sign_audio, bind, lift.
  now rewrite HL, range_negative_step by (unfold len; lia).
Qed.

Lemma verify_run_negative (W : list (sample X)) (sr : Z) (sigs : list bytes)
    (d : float) (L : Z) (w : world X) :
  segment_length_of d sr = Ok L -> L < 0 ->
  verify_audio_segments X W sr sigs d w = (Ok [], w).
Proof.
  intros HL Hneg. unfold verify_audio_segments, bind, lift.
  now rewrite HL, range_negative_step by (unfold len; lia).
Qed.

Lemma verify_run_zero (W : list (sample X)) (sr : Z) (sigs : list bytes)
    (d : float) (w : world X) :
  segment_length_of d sr = Ok 0 ->
  verify_audio_segments X W sr sigs d w = (Raise ValueError, w).
Proof.
  intros HL. unfold verify_audio_segments, bind, lift. now rewrite HL.
Qed.

Lemma verify_run_no_length (W : list (sample X)) (sr : Z) (sigs : list bytes)
    (d : float) (e : exn) (w : world X) :
  segment_length_of d sr = Raise e ->
  verify_audio_segments X W sr sigs d w = (Raise e, w).
Proof.
  intros HL. unfold verify_audio_segments, bind, lift. now rewrite HL.
Qed.

Lemma sign_run_zero (W : list (sample X)) (sr : Z) (d : float) (w : world X) :
  segment_length_of d sr = Ok 0 ->
  segment_and_sign_audio X W sr d w = (Raise ValueError, w).
Proof.
  intros HL. unfold segment_and_sign_audio, bind, lift. now rewrite HL.
Qed.

Lemma sign_run_no_length (W : list (sample X)) (sr : Z) (d : float) (e : exn)
    (w : world X) :
  segment_length_of d sr = Raise e ->
  segment_and_sign_audio X W sr d w = (Raise e, w).
Proof.
  intros HL. unfold segment_and_sign_audio, bind, lift. now rewrite HL.
Qed.


End Runs.

(** ** Properties of the two methods *)

(** The key pair of the small instance matches. *)
Lemma toy_bytes_eqb_refl (a : bytes) : Toy.bytes_eqb a a = true.
Proof.
  induction a as [|x a IH]; simpl; [reflexivity|].
  rewrite IH, andb_true_r. now apply Byte.byte_dec_lb.
Qed.

Lemma toy_matching_key_pair : matching_key_pair Toy.X.
Proof. intros data r. simpl. now rewrite toy_bytes_eqb_refl. Qed.

(** C1. Round trip: on a waveform with at least one sample and a segment
    length of at least one, signing returns, and verifying the returned
    signatures on the same waveform with the matching public key and the
    same segment duration returns one [true] per chunk and nothing else. *)
Theorem sign_then_verify_all_true (X : Collaborators) (W : list (sample X))
    (sr : Z) (d : float) (L : Z) (w : world X) :
  matching_key_pair X ->
  segment_length_of d sr = Ok L -> 1 <= L -> W <> [] ->
  exists signed_waveform sigs w' w'',
    segment_and_sign_audio X W sr d w = (Ok (signed_waveform, sigs), w') /\
    verify_audio_segments X W sr sigs d w' =
      (Ok (repeat true (Z.to_nat (num_chunks (len W) L))), w'').
Proof.
  intros Hkeys HL Hpos Hne.
  eexists _, _, _, _. split.
  - apply (sign_run X W sr d L w HL Hpos Hne).
  - rewrite (verify_run X W sr _ d L _ HL Hpos). f_equal. f_equal.
    rewrite <- (chunks_length X W L), <- (length_enumerate (chunks W L)).
    apply map_const_repeat. intros [i seg] Hin.
    apply In_enumerate in Hin. unfold verdict.
    destruct (sign_all_nth X (map (segment_bytes_of X sr) (chunks W L)) (entropy w)
                i (segment_bytes_of X sr seg)) as [r' Hr'].
    { rewrite nth_error_map, Hin. reflexivity. }
    simpl. rewrite Hr'. now rewrite Hkeys.
Qed.

Lemma sign_then_verify_all_true_witness :
  exists signed_waveform sigs w' w'',
    segment_and_sign_audio Toy.X [1; 2; 3; 4; 5] 2 one Toy.w0 =
      (Ok (signed_waveform, sigs), w') /\
    verify_audio_segments Toy.X [1; 2; 3; 4; 5] 2 sigs one w' =
      (Ok [true; true; true], w'').
Proof.
  apply (sign_then_verify_all_true Toy.X [1; 2; 3; 4; 5] 2 one 2 Toy.w0).
  - exact toy_matching_key_pair.
  - reflexivity.
  - lia.
  - discriminate.
Defined.





(** C6. A signature that does not verify is not an error of the verify
    method. The method raises only when the segment length cannot be
    computed or is zero, and then before its loop, with no call made. For
    a segment length of at least one it returns, with one boolean per
    chunk; wherever [verify] raises (whatever the exception) the boolean at
    that index is [False], and wherever it returns the boolean is [True],
    whatever happened at the other indices. *)
Theorem mismatch_is_reported_as_false (X : Collaborators) (W : list (sample X))
    (sr : Z) (sigs : list bytes) (d : float) (w : world X) :
  (forall e w',
     verify_audio_segments X W sr sigs d w = (Raise e, w') ->
     w' = w /\
     (segment_length_of d sr = Raise e \/ segment_length_of d sr = Ok 0)) /\
  (forall L,
     segment_length_of d sr = Ok L -> 1 <= L ->
     exists results w',
       verify_audio_segments X W sr sigs d w = (Ok results, w') /\
       len results = num_chunks (len W) L /\
       (forall i signature e,
          (i < length results)%nat ->
          nth_error sigs i = Some signature ->
          public_key_verify X signature (segment_bytes_of X sr (chunk W L i))
            = Raise e ->
          nth_error results i = Some false) /\
       (forall i signature,
          (i < length results)%nat ->
          nth_error sigs i = Some signature ->
          public_key_verify X signature (segment_bytes_of X sr (chunk W L i))
            = Ok tt ->
          nth_error results i = Some true)).
Proof.
  split.
  - intros e w' Hrun.
    destruct (segment_length_of d sr) as [L|e0] eqn:HL.
    + destruct (Z.lt_trichotomy L 0) as [Hneg|[->|Hpos]].
      * rewrite (verify_run_negative X W sr sigs d L w HL Hneg) in Hrun.
        discriminate.
      * rewrite (verify_run_zero X W sr sigs d w HL) in Hrun.
        injection Hrun as _ <-. auto.
      * rewrite (verify_run X W sr sigs d L w HL ltac:(lia)) in Hrun.
        discriminate.
    + rewrite (verify_run_no_length X W sr sigs d e0 w HL) in Hrun.
      injection Hrun as <- <-. auto.
  - intros L HL Hpos.
    pose proof (num_chunks_nonneg (len W) L ltac:(unfold len; lia) Hpos) as HN.
    eexists _, _. split; [apply (verify_run X W sr sigs d L w HL Hpos)|].
    split; [|split].
    + unfold len at 1. rewrite verify_results_length. lia.
    + intros i sg e Hi Hsig Hver. rewrite verify_results_length in Hi.
      rewrite verify_results_nth by assumption.
      unfold verdict. now rewrite Hsig, Hver.
    + intros i sg Hi Hsig Hver. rewrite verify_results_length in Hi.
      rewrite verify_results_nth by assumption.
      unfold verdict. now rewrite Hsig, Hver.
Qed.

(** On five samples in chunks of two, with a wrong signature in the middle:
    the outcome is [True, False, True]. *)
Lemma mismatch_is_reported_as_false_witness :
  exists results w',
    verify_audio_segments Toy.X [1; 2; 3; 4; 5] 2
      [[x07; x01; x02; x02]; [x08; x03; x09; x02]; [x09; x05; x02]] one Toy.w0
    = (Ok results, w') /\
    len results = 3 /\
    nth_error results 1 = Some false /\
    nth_error results 2 = Some true.
Proof.
  destruct (proj2 (mismatch_is_reported_as_false Toy.X [1; 2; 3; 4; 5] 2
                     [[x07; x01; x02; x02]; [x08; x03; x09; x02]; [x09; x05; x02]]
                     one Toy.w0) 2 eq_refl ltac:(lia))
    as (results & w' & Hrun & Hlen & Hfalse & Htrue).
  exists results, w'. split; [exact Hrun|]. split; [exact Hlen|].
  change (num_chunks _ _) with 3 in Hlen.
  assert (H3 : length results = 3%nat) by (unfold len in Hlen; lia).
  split.
  - apply (Hfalse 1%nat [x08; x03; x09; x02] InvalidSignature);
      [lia|reflexivity|reflexivity].
  - apply (Htrue 2%nat [x09; x05; x02]); [lia|reflexivity|reflexivity].
Defined.

(** C10. With fewer signatures than chunks the verify method still
    returns, with one boolean per chunk, and the boolean is [False] at
    every index that has no signature: the failed lookup happens inside the
    [try] and is caught. *)
Theorem missing_signatures_give_false (X : Collaborators) (W : list (sample X))
    (sr : Z) (sigs : list bytes) (d : float) (L : Z) (w : world X) :
  segment_length_of d sr = Ok L -> 1 <= L ->
  len sigs < num_chunks (len W) L ->
  exists results w',
    verify_audio_segments X W sr sigs d w = (Ok results, w') /\
    len results = num_chunks (len W) L /\
    (forall i, (length sigs <= i < length results)%nat ->
       nth_error results i = Some false).
Proof.
  intros HL Hpos Hfew.
  pose proof (num_chunks_nonneg (len W) L ltac:(unfold len; lia) Hpos) as HN.
  eexists _, _. split; [apply (verify_run X W sr sigs d L w HL Hpos)|].
  split.
  - unfold len at 1. rewrite verify_results_length. lia.
  - intros i [Hlo Hhi]. rewrite verify_results_length in Hhi.
    rewrite verify_results_nth by assumption.
    unfold verdict.
    destruct (nth_error sigs i) eqn:E; [|reflexivity].
    assert (i < length sigs)%nat by (apply nth_error_Some; congruence). lia.
Qed.

Lemma missing_signatures_give_false_witness :
  exists results w',
    verify_audio_segments Toy.X [1; 2; 3; 4; 5] 2 [[x07; x01; x02; x02]] one Toy.w0
    = (Ok results, w') /\
    len results = 3 /\
    (forall i, (1 <= i < length results)%nat -> nth_error results i = Some false).
Proof.
  apply (missing_signatures_give_false Toy.X [1; 2; 3; 4; 5] 2
           [[x07; x01; x02; x02]] one 2 Toy.w0).
  - reflexivity.
  - lia.
  - reflexivity.
Defined.

(** C8. Independence of the segments in verification: when two calls of
    the verify method (same rate and duration, segment length at least one)
    both have a chunk [i], with the same samples, and the same entry at
    index [i] of their signature lists, they report the same boolean at
    index [i]. *)
Theorem verification_depends_on_own_segment_only (X : Collaborators)
    (W1 W2 : list (sample X)) (sigs1 sigs2 : list bytes)
    (sr : Z) (d : float) (L : Z) (w1 w2 : world X) (i : nat) :
  segment_length_of d sr = Ok L -> 1 <= L ->
  Z.of_nat i < num_chunks (len W1) L ->
  Z.of_nat i < num_chunks (len W2) L ->
  chunk W1 L i = chunk W2 L i ->
  nth_error sigs1 i = nth_error sigs2 i ->
  exists results1 results2 w1' w2' b,
    verify_audio_segments X W1 sr sigs1 d w1 = (Ok results1, w1') /\
    verify_audio_segments X W2 sr sigs2 d w2 = (Ok results2, w2') /\
    nth_error results1 i = Some b /\
    nth_error results2 i = Some b.
Proof.
  intros HL Hpos Hi1 Hi2 Hseg Hsig.
  eexists _, _, _, _, _. split; [|split; [|split]].
  - apply (verify_run X W1 sr sigs1 d L w1 HL Hpos).
  - apply (verify_run X W2 sr sigs2 d L w2 HL Hpos).
  - rewrite verify_results_nth by lia. reflexivity.
  - rewrite verify_results_nth by lia.
    unfold verdict. now rewrite Hseg, Hsig.
Qed.

(** Two waveforms and two signature lists that agree on chunk 1 only. *)
Lemma verification_depends_on_own_segment_only_witness :
  exists results1 results2 w1' w2' b,
    verify_audio_segments Toy.X [1; 2; 3; 4; 5] 2
      [[x07; x01; x02; x02]; [x08; x03; x04; x02]; [x09; x05; x02]] one Toy.w0
    = (Ok results1, w1') /\
    verify_audio_segments Toy.X [9; 9; 3; 4] 2
      [[]; [x08; x03; x04; x02]] one Toy.w0
    = (Ok results2, w2') /\
    nth_error results1 1 = Some b /\
    nth_error results2 1 = Some b.
Proof.
  apply (verification_depends_on_own_segment_only Toy.X
           [1; 2; 3; 4; 5] [9; 9; 3; 4]
           [[x07; x01; x02; x02]; [x08; x03; x04; x02]; [x09; x05; x02]]
           [[]; [x08; x03; x04; x02]] 2 one 2 Toy.w0 Toy.w0 1).
  - reflexivity.
  - lia.
  - reflexivity.
  - reflexivity.
  - reflexivity.
  - reflexivity.
Defined.

(** What is signed is what is verified. On one waveform, rate and
    duration, a sign run calls [sign] on the bytes
    [tobytes(melspectrogram(chunk, sr))] of the chunks, in order, whatever
    the state of the random source and the history it starts from, and a
    verify run with at least one signature per chunk calls [verify] on the
    same list of bytes. This is about the data flow of the two loops;
    that librosa and numpy compute the same bytes twice is not proved
    here, it is how they enter the model. *)
Theorem signed_bytes_are_verified_bytes (X : Collaborators) (W : list (sample X))
    (sr : Z) (d : float) (L : Z) (sigs : list bytes) (w1 w2 w3 : world X) :
  segment_length_of d sr = Ok L -> 1 <= L ->
  num_chunks (len W) L <= len sigs ->
  exists tr1 tr2 tr3,
    trace (snd (segment_and_sign_audio X W sr d w1)) = trace w1 ++ tr1 /\
    trace (snd (segment_and_sign_audio X W sr d w2)) = trace w2 ++ tr2 /\
    trace (snd (verify_audio_segments X W sr sigs d w3)) = trace w3 ++ tr3 /\
    signed_data X tr1 =
      map (fun seg => tobytes X (melspectrogram X seg sr)) (chunks W L) /\
    signed_data X tr2 = signed_data X tr1 /\
    verified_data X tr3 = signed_data X tr1.
Proof.
  intros HL Hpos Hsigs.
  pose proof (num_chunks_nonneg (len W) L ltac:(unfold len; lia) Hpos) as HN.
  eexists _, _, _.
  rewrite (sign_run_any X W sr d L w1 HL Hpos).
  rewrite (sign_run_any X W sr d L w2 HL Hpos).
  rewrite (verify_run X W sr sigs d L w3 HL Hpos). simpl.
  repeat split.
  - apply signed_data_sign_events.
  - rewrite signed_data_sign_events. unfold enumerate.
    apply verified_data_verify_events_from.
    rewrite chunks_length. unfold len in *. lia.
Qed.

Lemma signed_bytes_are_verified_bytes_witness :
  exists tr1 tr2 tr3,
    trace (snd (segment_and_sign_audio Toy.X [1; 2; 3] 2 one Toy.w0)) = [] ++ tr1 /\
    trace (snd (segment_and_sign_audio Toy.X [1; 2; 3] 2 one (World (X := Toy.X) 40 [])))
      = [] ++ tr2 /\
    trace (snd (verify_audio_segments Toy.X [1; 2; 3] 2 [[]; []] one Toy.w0))
      = [] ++ tr3 /\
    signed_data Toy.X tr1 = [[x01; x02; x02]; [x03; x02]] /\
    signed_data Toy.X tr2 = signed_data Toy.X tr1 /\
    verified_data Toy.X tr3 = signed_data Toy.X tr1.
Proof.
  apply (signed_bytes_are_verified_bytes Toy.X [1; 2; 3] 2 one 2 [[]; []]
           Toy.w0 (World (X := Toy.X) 40 []) Toy.w0).
  - reflexivity.
  - lia.
  - discriminate.
Defined.

(** C9. On the empty waveform the sign method never returns: whatever the
    rate and the duration it raises, before any call to the feature
    extraction or to the signer; and when the segment length is a non-zero
    integer, the range of the loop is empty and the exception is the
    [ValueError] of concatenating an empty list. *)
Theorem empty_waveform_sign_raises (X : Collaborators) (sr : Z) (d : float)
    (w : world X) :
  (exists e, segment_and_sign_audio X [] sr d w = (Raise e, w)) /\
  (forall L, segment_length_of d sr = Ok L -> L <> 0 ->
     range_ 0 (len (@nil (sample X))) L = Ok [] /\
     np_concatenate (@nil (list (sample X))) = Raise ValueError /\
     segment_and_sign_audio X [] sr d w = (Raise ValueError, w)).
Proof.
  assert (Hrange : forall L, L <> 0 -> range_ 0 (len (@nil (sample X))) L = Ok []).
  { intros L HL. unfold range_, len. simpl.
    destruct (Z.eqb_spec L 0) as [?|_]; [contradiction|].
    now destruct (0 <? L). }
  assert (Hrun : forall L, segment_length_of d sr = Ok L -> L <> 0 ->
                   segment_and_sign_audio X [] sr d w = (Raise ValueError, w)).
  { intros L HL Hnz. unfold segment_and_sign_audio, bind, lift.
    rewrite HL, (Hrange L Hnz). reflexivity. }
  split.
  - destruct (segment_length_of d sr) as [L|e] eqn:HL.
    + destruct (Z.eq_dec L 0) as [->|Hnz].
      * exists ValueError. unfold segment_and_sign_audio, bind, lift.
        rewrite HL. reflexivity.
      * exists ValueError. now apply (Hrun L).
    + exists e. unfold segment_and_sign_audio, bind, lift. now rewrite HL.
  - intros L HL Hnz. split; [now apply Hrange|]. split; [reflexivity|].
    now apply (Hrun L).
Qed.

Lemma empty_waveform_sign_raises_witness :
  range_ 0 (len (@nil Z)) 16000 = Ok [] /\
  np_concatenate (@nil (list Z)) = Raise ValueError /\
  segment_and_sign_audio Toy.X [] 16000 one Toy.w0 = (Raise ValueError, Toy.w0).
Proof.
  apply (proj2 (empty_waveform_sign_raises Toy.X 16000 one Toy.w0) 16000).
  - reflexivity.
  - discriminate.
Defined.

(** C2, at the empty waveform: with the default duration and a rate of
    16000 the sign method does not hand back the (empty) input, it raises
    [ValueError]; the verify method takes the same waveform and returns the
    empty list. *)
Theorem empty_waveform_is_not_reconstructed (X : Collaborators) (w : world X) :
  segment_and_sign_audio X [] 16000 one w = (Raise ValueError, w) /\
  (forall sigs, verify_audio_segments X [] 16000 sigs one w = (Ok [], w)).
Proof. split; reflexivity. Qed.

(** C2, away from the empty waveform: the samples come back unchanged. *)
Lemma nonempty_waveform_is_reconstructed (X : Collaborators) (W : list (sample X))
    (sr : Z) (d : float) (L : Z) (w : world X) :
  segment_length_of d sr = Ok L -> 1 <= L -> W <> [] ->
  exists sigs w', segment_and_sign_audio X W sr d w = (Ok (W, sigs), w').
Proof.
  intros HL Hpos Hne. eexists _, _. apply (sign_run X W sr d L w HL Hpos Hne).
Qed.

(** ** Configuration errors *)

Lemma segment_length_of_zero_rate (d : float) :
  segment_length_of d 0 = Ok 0 \/ segment_length_of d 0 = Raise ValueError.
Proof. destruct d as [s|s| |s m e]; simpl; auto. Qed.

Lemma crypto_calls_verify_events_from (X : Collaborators) (sigs : list bytes)
    (sr : Z) (segs : list (list (sample X))) (a : nat) :
  length (crypto_calls X
            (verify_events X sigs sr (combine (seq a (length segs)) segs))) =
  Nat.min (length sigs - a) (length segs).
Proof.
  revert a; induction segs as [|seg segs IH]; intros a; simpl.
  - now rewrite Nat.min_0_r.
  - specialize (IH (S a)).
    change (verify_events X sigs sr ((a, seg) :: combine (seq (S a) (length segs)) segs))
      with ((EvMel seg sr ::
             match nth_error sigs a with
             | Some signature => [EvVerify signature (segment_bytes_of X sr seg)]
             | None => []
             end) ++
            verify_events X sigs sr (combine (seq (S a) (length segs)) segs)).
    unfold crypto_calls in *. rewrite filter_app, length_app, IH.
    destruct (nth_error sigs a) as [sg|] eqn:E; simpl.
    + assert (a < length sigs)%nat by (apply nth_error_Some; congruence). lia.
    + apply nth_error_None in E. lia.
Qed.

(** C7, as the code has it. Nothing checks the configuration.
    - With a rate of 0 both methods raise, and no collaborator has been
      called by then.
    - With a negative segment length the sign method raises [ValueError]
      before any call, while the verify method returns the empty list.
    - With a segment length of at least one the verify method returns one
      boolean per chunk whatever the number of signatures, and it has
      called [verify] once for each chunk that has a signature. *)
Theorem configuration_errors_as_handled (X : Collaborators) :
  (forall (W : list (sample X)) (d : float) (sigs : list bytes) (w : world X),
     segment_and_sign_audio X W 0 d w = (Raise ValueError, w) /\
     verify_audio_segments X W 0 sigs d w = (Raise ValueError, w)) /\
  (forall (W : list (sample X)) (sr : Z) (d : float) (L : Z) (sigs : list bytes)
          (w : world X),
     segment_length_of d sr = Ok L -> L < 0 ->
     segment_and_sign_audio X W sr d w = (Raise ValueError, w) /\
     verify_audio_segments X W sr sigs d w = (Ok [], w)) /\
  (forall (W : list (sample X)) (sr : Z) (d : float) (L : Z) (sigs : list bytes)
          (w : world X),
     segment_length_of d sr = Ok L -> 1 <= L ->
     exists results tr,
       verify_audio_segments X W sr sigs d w =
         (Ok results, World (entropy w) (trace w ++ tr)) /\
       len results = num_chunks (len W) L /\
       len (crypto_calls X tr) = Z.min (len sigs) (num_chunks (len W) L)).
Proof.
  split; [|split].
  - intros W d sigs w.
    unfold segment_and_sign_audio, verify_audio_segments, bind, lift.
    destruct (segment_length_of_zero_rate d) as [-> | ->].
    + split; reflexivity.
    + split; reflexivity.
  - intros W sr d L sigs w HL Hneg. split.
    + apply (sign_run_negative X W sr d L w HL Hneg).
    + apply (verify_run_negative X W sr sigs d L w HL Hneg).
  - intros W sr d L sigs w HL Hpos.
    pose proof (num_chunks_nonneg (len W) L ltac:(unfold len; lia) Hpos) as HN.
    eexists _, _. split; [apply (verify_run X W sr sigs d L w HL Hpos)|]. split.
    + unfold len at 1. rewrite verify_results_length. lia.
    + unfold len at 1, enumerate.
      rewrite crypto_calls_verify_events_from, chunks_length.
      unfold len in *. lia.
Qed.

Lemma configuration_errors_as_handled_witness :
  segment_and_sign_audio Toy.X [1; 2] (-1) one Toy.w0 = (Raise ValueError, Toy.w0) /\
  verify_audio_segments Toy.X [1; 2] (-1) [] one Toy.w0 = (Ok [], Toy.w0).
Proof.
  apply (proj1 (proj2 (configuration_errors_as_handled Toy.X))
           [1; 2] (-1) one (-1) [] Toy.w0).
  - reflexivity.
  - lia.
Defined.

(** C7 fails on the code: a negative rate, and two chunks with no
    signature at all, both make the verify method return normally. *)
Lemma configuration_errors_are_not_fatal :
  verify_audio_segments Toy.X [1; 2] (-1) [] one Toy.w0 = (Ok [], Toy.w0) /\
  fst (verify_audio_segments Toy.X [1; 2; 3] 2 [] one Toy.w0) = Ok [false; false] /\
  ~ configuration_errors_are_fatal Toy.X.
Proof.
  split; [reflexivity|]. split; [reflexivity|].
  intros [_ Hverify].
  destruct (Hverify [1; 2; 3] 2 [] one 2 Toy.w0 eq_refl) as (e & w' & Hrun & _).
  - right. discriminate.
  - discriminate Hrun.
Qed.

(** ** The default segment duration *)

Lemma digits2_pos_bounds (m : positive) :
  2 ^ (Zpos (digits2_pos m) - 1) <= Zpos m < 2 ^ Zpos (digits2_pos m).
Proof.
  induction m as [m IH|m IH|]; simpl digits2_pos.
  - rewrite Pos2Z.inj_succ.
    replace (Z.succ (Zpos (digits2_pos m)) - 1) with (Z.succ (Zpos (digits2_pos m) - 1)) by lia.
    rewrite !Z.pow_succ_r by lia. lia.
  - rewrite Pos2Z.inj_succ.
    replace (Z.succ (Zpos (digits2_pos m)) - 1) with (Z.succ (Zpos (digits2_pos m) - 1)) by lia.
    rewrite !Z.pow_succ_r by lia. lia.
  - simpl. lia.
Qed.

Lemma iter_xO_value (m d : positive) :
  Zpos (Pos.iter xO m d) = Zpos m * 2 ^ Zpos d.
Proof.
  induction d as [|d IH] using Pos.peano_ind.
  - simpl. lia.
  - rewrite Pos.iter_succ, Pos2Z.inj_succ, Z.pow_succ_r by lia.
    rewrite Pos2Z.inj_xO, IH. lia.
Qed.

Lemma iter_xO_digits (m d : positive) :
  digits2_pos (Pos.iter xO m d) = (digits2_pos m + d)%positive.
Proof.
  induction d as [|d IH] using Pos.peano_ind.
  - simpl. lia.
  - rewrite Pos.iter_succ. simpl. rewrite IH. lia.
Qed.

(** A mantissa of 53 bits with an exponent in range is its own rounding. *)
Lemma binary_round_aux_exact (s : bool) (m : positive) (e : Z) :
  digits2_pos m = 53%positive -> -1074 <= e <= 971 ->
  binary_round_aux prec emax s (Zpos m) e loc_Exact = S754_finite s m e.
Proof.
  intros Hd He.
  assert (Hshift : shr_fexp prec emax (Zpos m) e loc_Exact =
                   (Build_shr_record (Zpos m) false false, e)).
  { unfold shr_fexp, shr. simpl Zdigits2. rewrite Hd.
    unfold fexp, emin, prec, emax.
    replace (Z.max (53 + e - 53) (3 - 1024 - 53) - e) with 0 by lia.
    reflexivity. }
  unfold binary_round_aux. rewrite Hshift. simpl. rewrite Hshift. simpl.
  destruct (Z.leb_spec e 971); [reflexivity|lia].
Qed.

Lemma shl_align_spec (m : positive) (e e' : Z) :
  e' <= e ->
  let '(mz, ez) := shl_align m e e' in
  ez = e' /\ Zpos mz = Zpos m * 2 ^ (e - e') /\
  Zpos (digits2_pos mz) = Zpos (digits2_pos m) + (e - e').
Proof.
  intros Hle. unfold shl_align.
  destruct (e' - e) as [|d|d] eqn:E; try lia.
  - replace (e - e') with 0 by lia. simpl. split; [lia|]. split; lia.
  - replace (e - e') with (Zpos d) by lia.
    rewrite iter_xO_value, iter_xO_digits. split; [reflexivity|]. split; lia.
Qed.

(** [float(n)] is exact for an integer of at most 53 bits. *)
Lemma float_of_int_exact (s : bool) (m : positive) :
  Zpos m < 2 ^ 53 ->
  exists mz ez,
    float_of_int (if s then Zneg m else Zpos m) = Ok (S754_finite s mz ez) /\
    digits2_pos mz = 53%positive /\ -52 <= ez <= 0 /\
    Zpos mz = Zpos m * 2 ^ (- ez).
Proof.
  intros Hm.
  pose proof (digits2_pos_bounds m) as HD.
  assert (HD53 : Zpos (digits2_pos m) <= 53).
  { destruct (Z_le_gt_dec (Zpos (digits2_pos m)) 53) as [?|Hgt]; [assumption|].
    assert (2 ^ 53 <= 2 ^ (Zpos (digits2_pos m) - 1))
      by (apply Z.pow_le_mono_r; lia).
    lia. }
  pose proof (shl_align_spec m 0 (Zpos (digits2_pos m) - 53) ltac:(lia)) as Hal.
  destruct (shl_align m 0 (Zpos (digits2_pos m) - 53)) as [mz ez] eqn:Eal.
  destruct Hal as (-> & Hval & Hdig).
  exists mz, (Zpos (digits2_pos m) - 53).
  assert (Hd : digits2_pos mz = 53%positive) by lia.
  split; [|split; [exact Hd|split; [lia|]]].
  - unfold float_of_int.
    assert (Hround : binary_normalize prec emax (if s then Zneg m else Zpos m) 0 false
                     = S754_finite s mz (Zpos (digits2_pos m) - 53)).
    { assert (Hr : binary_round prec emax s m 0 =
                   S754_finite s mz (Zpos (digits2_pos m) - 53)).
      { unfold binary_round.
        replace (fexp prec emax (Zpos (digits2_pos m) + 0))
          with (Zpos (digits2_pos m) - 53)
          by (unfold fexp, emin, prec, emax; lia).
        rewrite Eal. apply binary_round_aux_exact; [exact Hd|lia]. }
      destruct s; exact Hr. }
    rewrite Hround. reflexivity.
  - rewrite Hval. f_equal.
Qed.

(** Multiplying by [1.0] changes nothing on such a float. *)
Lemma mul_one_exact (s : bool) (mz : positive) (ez : Z) :
  digits2_pos mz = 53%positive -> -1074 <= ez <= 971 ->
  SFmul prec emax one (S754_finite s mz ez) = S754_finite s mz ez.
Proof.
  intros Hd He. unfold one, SFmul.
  change (xorb false s) with s.
  assert (Hshift : shr_fexp prec emax (Zpos (4503599627370496 * mz)) (-52 + ez) loc_Exact
                   = (Build_shr_record (Zpos mz) false false, ez)).
  { unfold shr_fexp.
    assert (Hdig : Zdigits2 (Zpos (4503599627370496 * mz)) = 105).
    { change (Zdigits2 (Zpos (4503599627370496 * mz)))
        with (Zpos (Pos.iter Pos.succ (digits2_pos mz) 52)).
      rewrite Hd. reflexivity. }
    rewrite Hdig.
    replace (fexp prec emax (105 + (-52 + ez)) - (-52 + ez)) with 52
      by (unfold fexp, emin, prec, emax; lia).
    unfold shr. f_equal. lia. }
  unfold binary_round_aux. rewrite Hshift.
  change (round_nearest_even (shr_m (Build_shr_record (Zpos mz) false false))
            (loc_of_shr_record (Build_shr_record (Zpos mz) false false)))
    with (Zpos mz).
  assert (Hshift2 : shr_fexp prec emax (Zpos mz) ez loc_Exact =
                    (Build_shr_record (Zpos mz) false false, ez)).
  { unfold shr_fexp, shr. simpl Zdigits2. rewrite Hd.
    replace (fexp prec emax (53 + ez) - ez) with 0
      by (unfold fexp, emin, prec, emax; lia).
    reflexivity. }
  rewrite Hshift2. simpl.
  destruct (Z.leb_spec ez 971); [reflexivity|lia].
Qed.

(** With the default [segment_duration=1.0] the segment length is the
    sample rate itself, for every rate of less than 54 bits, negative rates
    included: a segment is one second of audio. *)
Theorem segment_length_default (sr : Z) :
  - 2 ^ 53 < sr < 2 ^ 53 -> segment_length_of one sr = Ok sr.
Proof.
  intros Hsr.
  assert (Hs : forall (s : bool) (m : positive),
             Zpos m < 2 ^ 53 ->
             segment_length_of one (if s then Zneg m else Zpos m) =
             Ok (if s then Zneg m else Zpos m)).
  { intros s m Hm.
    destruct (float_of_int_exact s m Hm) as (mz & ez & Hf & Hd & He & Hv).
    unfold segment_length_of, float_mul_int. rewrite Hf.
    rewrite mul_one_exact by (assumption || lia).
    unfold int_of_float. f_equal.
    assert (Hsh : Z.shiftl (Zpos mz) ez = Zpos m).
    { rewrite Hv. rewrite <- (Z.opp_involutive ez) at 2.
      rewrite Z.shiftl_opp_r, Z.shiftr_div_pow2 by lia.
      apply Z.div_mul. apply Z.pow_nonzero; lia. }
    rewrite Hsh. destruct s; reflexivity. }
  destruct sr as [|m|m].
  - reflexivity.
  - apply (Hs false m). lia.
  - apply (Hs true m). lia.
Qed.

(** ** More on the two methods *)

Section MoreRuns.

Context (X : Collaborators).

Lemma signed_data_app (a b : list (event X)) :
  signed_data X (a ++ b) = signed_data X a ++ signed_data X b.
Proof. apply flat_map_app. Qed.

Lemma verified_data_app (a b : list (event X)) :
  verified_data X (a ++ b) = verified_data X a ++ verified_data X b.
Proof. apply flat_map_app. Qed.

Lemma verified_data_sign_events (sr : Z) (segs : list (list (sample X))) :
  verified_data X (sign_events X sr segs) = [].
Proof. induction segs as [|seg segs IH]; simpl; [reflexivity|exact IH]. Qed.

Lemma signed_data_verify_events (sigs : list bytes) (sr : Z)
    (items : list (nat * list (sample X))) :
  signed_data X (verify_events X sigs sr items) = [].
Proof.
  induction items as [|[i seg] items IH]; simpl; [reflexivity|].
  unfold signed_data in *. rewrite flat_map_app, IH.
  destruct (nth_error sigs i); reflexivity.
Qed.

(** The sign method on the empty waveform. *)
Lemma sign_run_empty (sr : Z) (d : float) (w : world X) :
  exists e, segment_and_sign_audio X [] sr d w = (Raise e, w).
Proof.
  destruct (segment_length_of d sr) as [L|e] eqn:HL.
  - exists ValueError. unfold segment_and_sign_audio, bind, lift. rewrite HL.
    unfold range_, len. simpl.
    destruct (L =? 0); [reflexivity|]. now destruct (0 <? L).
  - exists e. now apply sign_run_no_length.
Qed.

(** Under a matching key pair, the [i]-th signature of a sign run verifies
    on the bytes of the [i]-th chunk it was made for. *)
Lemma verdict_after_sign (W : list (sample X)) (sr L : Z) (r : rng X) (i : nat) :
  matching_key_pair X ->
  (i < Z.to_nat (num_chunks (len W) L))%nat ->
  verdict X (fst (sign_all X (map (segment_bytes_of X sr) (chunks W L)) r)) i
    (segment_bytes_of X sr (chunk W L i)) = true.
Proof.
  intros Hkeys Hi. unfold verdict.
  destruct (sign_all_nth X (map (segment_bytes_of X sr) (chunks W L)) r
              i (segment_bytes_of X sr (chunk W L i))) as [r' Hr'].
  { rewrite nth_error_map, chunks_nth by assumption. reflexivity. }
  rewrite Hr'. now rewrite Hkeys.
Qed.

Lemma verdict_without_signature (sigs : list bytes) (i : nat) (data : bytes) :
  (length sigs <= i)%nat -> verdict X sigs i data = false.
Proof.
  intros Hi. unfold verdict.
  destruct (nth_error sigs i) eqn:E; [|reflexivity].
  assert (i < length sigs)%nat by (apply nth_error_Some; congruence). lia.
Qed.

(** *** Chunks of a shortened and of a lengthened waveform *)

Lemma chunk_of_prefix (W : list (sample X)) (L : Z) (k i : nat) :
  1 <= L -> (i < k)%nat ->
  chunk (firstn (k * Z.to_nat L) W) L i = chunk W L i.
Proof.
  intros HL Hi. rewrite !chunk_firstn_skipn by assumption.
  rewrite skipn_firstn_comm, firstn_firstn. f_equal. nia.
Qed.

Lemma chunk_of_extension (W T : list (sample X)) (L : Z) (i : nat) :
  1 <= L -> (Z.of_nat i + 1) * L <= len W ->
  chunk (W ++ T) L i = chunk W L i.
Proof.
  intros HL Hi. rewrite !chunk_firstn_skipn by assumption.
  unfold len in Hi.
  rewrite skipn_app, firstn_app.
  replace (Z.to_nat L - length (skipn (i * Z.to_nat L) W))%nat with 0%nat
    by (rewrite length_skipn; nia).
  simpl. now rewrite app_nil_r.
Qed.

Lemma num_chunks_exact (k L : Z) : 0 <= k -> 1 <= L -> num_chunks (k * L) L = k.
Proof.
  intros Hk HL. unfold num_chunks.
  replace (k * L + L - 1) with (L - 1 + k * L) by lia.
  rewrite Z.div_add by lia. rewrite Z.div_small by lia. lia.
Qed.

Lemma num_chunks_monotone (n n' L : Z) :
  0 <= n <= n' -> 1 <= L -> num_chunks n L <= num_chunks n' L.
Proof.
  intros Hn HL. unfold num_chunks. apply Z.div_le_mono; lia.
Qed.

End MoreRuns.

Lemma segment_length_default_witness : segment_length_of one 44100 = Ok 44100.
Proof. apply (segment_length_default 44100). split; reflexivity. Defined.

(** What a verifier sees on a received waveform. After a sign run on [W]
    (non-empty, segment length at least one, matching keys), verifying
    any waveform [W'] with the signatures of [W] returns one boolean per
    chunk of [W']: [True] at every index where the chunk of [W'] equals the
    chunk of [W], [False] at every index beyond the chunks of [W]. *)
Theorem verify_received_waveform (X : Collaborators) (W W' : list (sample X))
    (sr : Z) (d : float) (L : Z) (w w2 : world X) :
  matching_key_pair X ->
  segment_length_of d sr = Ok L -> 1 <= L -> W <> [] ->
  exists signed_waveform sigs w' results w'',
    segment_and_sign_audio X W sr d w = (Ok (signed_waveform, sigs), w') /\
    verify_audio_segments X W' sr sigs d w2 = (Ok results, w'') /\
    len results = num_chunks (len W') L /\
    (forall i, (i < length results)%nat ->
       Z.of_nat i < num_chunks (len W) L ->
       chunk W' L i = chunk W L i ->
       nth_error results i = Some true) /\
    (forall i, (i < length results)%nat ->
       num_chunks (len W) L <= Z.of_nat i ->
       nth_error results i = Some false).
Proof.
  intros Hkeys HL Hpos Hne.
  pose proof (num_chunks_nonneg (len W) L ltac:(unfold len; lia) Hpos) as HN.
  pose proof (num_chunks_nonneg (len W') L ltac:(unfold len; lia) Hpos) as HN'.
  eexists _, _, _, _, _. split; [|split; [|split; [|split]]].
  - apply (sign_run X W sr d L w HL Hpos Hne).
  - apply (verify_run X W' sr _ d L w2 HL Hpos).
  - unfold len at 1. rewrite verify_results_length. lia.
  - intros i Hi HiN Heq. rewrite verify_results_length in Hi.
    rewrite verify_results_nth by assumption. rewrite Heq.
    f_equal. apply verdict_after_sign; [assumption|lia].
  - intros i Hi HiN. rewrite verify_results_length in Hi.
    rewrite verify_results_nth by assumption.
    f_equal. apply verdict_without_signature.
    rewrite sign_all_length, length_map, chunks_length. lia.
Qed.

(** Signed [1; 2; 3; 4], received [1; 2; 9; 9; 5] in chunks of two: the
    first chunk is intact, the third has no signature. *)
Lemma verify_received_waveform_witness :
  exists signed_waveform sigs w' results w'',
    segment_and_sign_audio Toy.X [1; 2; 3; 4] 2 one Toy.w0 =
      (Ok (signed_waveform, sigs), w') /\
    verify_audio_segments Toy.X [1; 2; 9; 9; 5] 2 sigs one Toy.w0 =
      (Ok results, w'') /\
    nth_error results 0 = Some true /\
    nth_error results 2 = Some false.
Proof.
  destruct (verify_received_waveform Toy.X [1; 2; 3; 4] [1; 2; 9; 9; 5] 2 one 2
              Toy.w0 Toy.w0 toy_matching_key_pair eq_refl ltac:(lia)
              ltac:(discriminate))
    as (sw & sigs & w' & results & w'' & Hs & Hv & Hlen & Htrue & Hfalse).
  exists sw, sigs, w', results, w''.
  change (num_chunks _ _) with 3 in Hlen.
  assert (H3 : length results = 3%nat) by (unfold len in Hlen; lia).
  split; [exact Hs|]. split; [exact Hv|]. split.
  - apply (Htrue 0%nat); [lia|reflexivity|reflexivity].
  - apply (Hfalse 2%nat); [lia|discriminate].
Defined.

(** Cutting the signed audio after [k] whole segments goes unnoticed: the
    verify method, given the shortened waveform and all the signatures,
    returns [k] times [True]. *)
Theorem truncation_at_segment_boundary_passes (X : Collaborators)
    (W : list (sample X)) (sr : Z) (d : float) (L : Z) (k : nat)
    (w w2 : world X) :
  matching_key_pair X ->
  segment_length_of d sr = Ok L -> 1 <= L -> W <> [] ->
  (k * Z.to_nat L <= length W)%nat ->
  exists signed_waveform sigs w' w'',
    segment_and_sign_audio X W sr d w = (Ok (signed_waveform, sigs), w') /\
    verify_audio_segments X (firstn (k * Z.to_nat L) W) sr sigs d w2 =
      (Ok (repeat true k), w'').
Proof.
  intros Hkeys HL Hpos Hne Hk.
  set (W' := firstn (k * Z.to_nat L) W).
  assert (HlenW' : len W' = Z.of_nat k * L).
  { unfold len, W'. rewrite length_firstn. nia. }
  assert (HN' : Z.to_nat (num_chunks (len W') L) = k).
  { rewrite HlenW', num_chunks_exact by lia. lia. }
  assert (HkN : (k <= Z.to_nat (num_chunks (len W) L))%nat).
  { rewrite <- HN'. apply Z2Nat.inj_le.
    - apply num_chunks_nonneg; [unfold len|]; lia.
    - apply num_chunks_nonneg; [unfold len|]; lia.
    - apply num_chunks_monotone; [|assumption].
      rewrite HlenW'. unfold len. nia. }
  eexists _, _, _, _. split.
  - apply (sign_run X W sr d L w HL Hpos Hne).
  - rewrite (verify_run X W' sr _ d L w2 HL Hpos). f_equal. f_equal.
    rewrite <- HN' at 1.
    rewrite <- (chunks_length X W' L), <- (length_enumerate (chunks W' L)).
    apply map_const_repeat. intros [i seg] Hin.
    apply In_enumerate in Hin.
    assert (Hi : (i < k)%nat).
    { rewrite <- HN', <- (chunks_length X W' L).
      apply nth_error_Some. congruence. }
    rewrite chunks_nth in Hin by lia. injection Hin as <-.
    unfold W'. rewrite chunk_of_prefix by assumption.
    apply verdict_after_sign; [assumption|lia].
Qed.

Lemma truncation_at_segment_boundary_passes_witness :
  exists signed_waveform sigs w' w'',
    segment_and_sign_audio Toy.X [1; 2; 3; 4; 5] 2 one Toy.w0 =
      (Ok (signed_waveform, sigs), w') /\
    verify_audio_segments Toy.X [1; 2] 2 sigs one Toy.w0 = (Ok [true], w'').
Proof.
  apply (truncation_at_segment_boundary_passes Toy.X [1; 2; 3; 4; 5] 2 one 2 1
           Toy.w0 Toy.w0).
  - exact toy_matching_key_pair.
  - reflexivity.
  - lia.
  - discriminate.
  - simpl. lia.
Defined.

(** Audio appended after a whole number of signed segments is flagged:
    the booleans of the signed segments stay [True], those of the chunks
    that follow are [False]. *)
Theorem appended_audio_is_flagged (X : Collaborators) (W T : list (sample X))
    (sr : Z) (d : float) (L : Z) (w w2 : world X) :
  matching_key_pair X ->
  segment_length_of d sr = Ok L -> 1 <= L -> W <> [] ->
  len W = num_chunks (len W) L * L ->
  exists signed_waveform sigs w' results w'',
    segment_and_sign_audio X W sr d w = (Ok (signed_waveform, sigs), w') /\
    verify_audio_segments X (W ++ T) sr sigs d w2 = (Ok results, w'') /\
    len results = num_chunks (len (W ++ T)) L /\
    (forall i, Z.of_nat i < num_chunks (len W) L ->
       nth_error results i = Some true) /\
    (forall i, num_chunks (len W) L <= Z.of_nat i < num_chunks (len (W ++ T)) L ->
       nth_error results i = Some false).
Proof.
  intros Hkeys HL Hpos Hne Hmult.
  assert (Hn : 0 <= len W) by (unfold len; lia).
  assert (Hn' : 0 <= len W <= len (W ++ T))
    by (unfold len; rewrite length_app; lia).
  pose proof (num_chunks_nonneg (len W) L Hn Hpos) as HN.
  pose proof (num_chunks_monotone (len W) (len (W ++ T)) L Hn' Hpos) as Hmono.
  eexists _, _, _, _, _. split; [|split; [|split; [|split]]].
  - apply (sign_run X W sr d L w HL Hpos Hne).
  - apply (verify_run X (W ++ T) sr _ d L w2 HL Hpos).
  - unfold len at 1. rewrite verify_results_length. lia.
  - intros i Hi. rewrite verify_results_nth by lia.
    rewrite chunk_of_extension by (assumption || nia).
    f_equal. apply verdict_after_sign; [assumption|lia].
  - intros i Hi. rewrite verify_results_nth by lia.
    f_equal. apply verdict_without_signature.
    rewrite sign_all_length, length_map, chunks_length. lia.
Qed.

Lemma appended_audio_is_flagged_witness :
  exists signed_waveform sigs w' results w'',
    segment_and_sign_audio Toy.X [1; 2; 3; 4] 2 one Toy.w0 =
      (Ok (signed_waveform, sigs), w') /\
    verify_audio_segments Toy.X ([1; 2; 3; 4] ++ [5; 6; 7]) 2 sigs one Toy.w0 =
      (Ok results, w'') /\
    len results = 4 /\
    (forall i, Z.of_nat i < 2 -> nth_error results i = Some true) /\
    (forall i, 2 <= Z.of_nat i < 4 -> nth_error results i = Some false).
Proof.
  apply (appended_audio_is_flagged Toy.X [1; 2; 3; 4] [5; 6; 7] 2 one 2
           Toy.w0 Toy.w0).
  - exact toy_matching_key_pair.
  - reflexivity.
  - lia.
  - discriminate.
  - reflexivity.
Defined.

Lemma flat_map_ext_in {A B : Type} (f g : A -> list B) (l : list A) :
  (forall a, In a l -> f a = g a) -> flat_map f l = flat_map g l.
Proof.
  induction l as [|x l IH]; simpl; intros H; [reflexivity|].
  rewrite (H x) by now left. f_equal. apply IH. intros a Ha. apply H. now right.
Qed.

(** Signatures beyond the last chunk are never looked at: with at least
    one signature per chunk, appending more signatures changes neither the
    result of the verify method nor the calls it makes. *)
Theorem surplus_signatures_are_ignored (X : Collaborators) (W : list (sample X))
    (sr : Z) (sigs extra : list bytes) (d : float) (L : Z) (w : world X) :
  segment_length_of d sr = Ok L -> 1 <= L ->
  num_chunks (len W) L <= len sigs ->
  verify_audio_segments X W sr (sigs ++ extra) d w =
  verify_audio_segments X W sr sigs d w.
Proof.
  intros HL Hpos Hcount.
  pose proof (num_chunks_nonneg (len W) L ltac:(unfold len; lia) Hpos) as HN.
  rewrite !(verify_run X W sr _ d L w HL Hpos).
  assert (Hsame : forall i seg, In (i, seg) (enumerate (chunks W L)) ->
                    nth_error (sigs ++ extra) i = nth_error sigs i).
  { intros i seg Hin. apply In_enumerate in Hin.
    assert (i < length (chunks W L))%nat by (apply nth_error_Some; congruence).
    rewrite chunks_length in *. unfold len in *.
    apply nth_error_app1. lia. }
  f_equal; [f_equal|f_equal; f_equal].
  - apply map_ext_in. intros [i seg] Hin. unfold verdict.
    now rewrite (Hsame i seg Hin).
  - unfold verify_events. apply flat_map_ext_in. intros [i seg] Hin.
    now rewrite (Hsame i seg Hin).
Qed.

Lemma surplus_signatures_are_ignored_witness :
  verify_audio_segments Toy.X [1; 2; 3] 2
    ([[x07; x01; x02; x02]; [x08; x03; x02]] ++ [[x09]; []]) one Toy.w0 =
  verify_audio_segments Toy.X [1; 2; 3] 2
    [[x07; x01; x02; x02]; [x08; x03; x02]] one Toy.w0.
Proof.
  apply (surplus_signatures_are_ignored Toy.X [1; 2; 3] 2
           [[x07; x01; x02; x02]; [x08; x03; x02]] [[x09]; []] one 2 Toy.w0).
  - reflexivity.
  - lia.
  - discriminate.
Defined.

(** The verify method never signs and never draws from the random source;
    the sign method never verifies. This holds for every input, also when
    the method raises. *)
Theorem methods_keep_to_their_key (X : Collaborators) (W : list (sample X))
    (sr : Z) (sigs : list bytes) (d : float) (w : world X) :
  entropy (snd (verify_audio_segments X W sr sigs d w)) = entropy w /\
  signed_data X (trace (snd (verify_audio_segments X W sr sigs d w))) =
    signed_data X (trace w) /\
  verified_data X (trace (snd (segment_and_sign_audio X W sr d w))) =
    verified_data X (trace w).
Proof.
  destruct (segment_length_of d sr) as [L|e] eqn:HL.
  - destruct (Z.lt_trichotomy L 0) as [Hneg|[->|Hpos]].
    + rewrite (verify_run_negative X W sr sigs d L w HL Hneg).
      rewrite (sign_run_negative X W sr d L w HL Hneg). auto.
    + rewrite (verify_run_zero X W sr sigs d w HL).
      rewrite (sign_run_zero X W sr d w HL). auto.
    + rewrite (verify_run X W sr sigs d L w HL ltac:(lia)).
      rewrite (sign_run_any X W sr d L w HL ltac:(lia)). simpl.
      rewrite signed_data_app, signed_data_verify_events, app_nil_r.
      rewrite verified_data_app, verified_data_sign_events, app_nil_r. auto.
  - rewrite (verify_run_no_length X W sr sigs d e w HL).
    rewrite (sign_run_no_length X W sr d e w HL). auto.
Qed.

(** A segment duration of zero, of infinity or NaN makes both methods
    raise [ValueError] or [OverflowError], before any call to the feature
    extraction, the signer or the verifier. *)
Theorem degenerate_duration_raises (X : Collaborators) (W : list (sample X))
    (sr : Z) (sigs : list bytes) (d : float) (w : world X) :
  (forall s m e, d <> S754_finite s m e) ->
  exists e,
    (e = ValueError \/ e = OverflowError) /\
    segment_and_sign_audio X W sr d w = (Raise e, w) /\
    verify_audio_segments X W sr sigs d w = (Raise e, w).
Proof.
  intros Hd.
  assert (Hlen : segment_length_of d sr = Ok 0 \/
                 segment_length_of d sr = Raise ValueError \/
                 segment_length_of d sr = Raise OverflowError).
  { unfold segment_length_of, float_mul_int, float_of_int.
    destruct d as [s|s| |s m e]; [| | |exfalso; now apply (Hd s m e)];
      destruct (binary_normalize prec emax sr 0 false) as [sy|sy| |sy my ey];
      simpl; auto. }
  destruct Hlen as [HL|[HL|HL]].
  - exists ValueError. split; [now left|]. split.
    + apply (sign_run_zero X W sr d w HL).
    + apply (verify_run_zero X W sr sigs d w HL).
  - exists ValueError. split; [now left|]. split.
    + apply (sign_run_no_length X W sr d ValueError w HL).
    + apply (verify_run_no_length X W sr sigs d ValueError w HL).
  - exists OverflowError. split; [now right|]. split.
    + apply (sign_run_no_length X W sr d OverflowError w HL).
    + apply (verify_run_no_length X W sr sigs d OverflowError w HL).
Qed.

Lemma degenerate_duration_raises_witness :
  exists e,
    (e = ValueError \/ e = OverflowError) /\
    segment_and_sign_audio Toy.X [1; 2; 3] 2 S754_nan Toy.w0 = (Raise e, Toy.w0) /\
    verify_audio_segments Toy.X [1; 2; 3] 2 [] S754_nan Toy.w0 = (Raise e, Toy.w0).
Proof.
  apply (degenerate_duration_raises Toy.X [1; 2; 3] 2 [] S754_nan Toy.w0).
  intros s m e. discriminate.
Defined.

(** ** [process_audio] *)

Lemma verify_results_after_sign (X : Collaborators) (W : list (sample X))
    (sr L : Z) (r : rng X) :
  matching_key_pair X ->
  map (fun '(i, seg) =>
         verdict X (fst (sign_all X (map (segment_bytes_of X sr) (chunks W L)) r))
           i (segment_bytes_of X sr seg))
      (enumerate (chunks W L)) =
  repeat true (Z.to_nat (num_chunks (len W) L)).
Proof.
  intros Hkeys.
  rewrite <- (chunks_length X W L), <- (length_enumerate (chunks W L)).
  apply map_const_repeat. intros [i seg] Hin. apply In_enumerate in Hin.
  assert (Hi : (i < Z.to_nat (num_chunks (len W) L))%nat).
  { rewrite <- (chunks_length X W L). apply nth_error_Some. congruence. }
  rewrite chunks_nth in Hin by assumption. injection Hin as <-.
  now apply verdict_after_sign.
Qed.

Lemma sign_run_empty_length (X : Collaborators) (sr : Z) (d : float) (L : Z)
    (w : world X) :
  segment_length_of d sr = Ok L ->
  segment_and_sign_audio X [] sr d w = (Raise ValueError, w).
Proof.
  intros HL. unfold segment_and_sign_audio, bind, lift. rewrite HL.
  unfold range_, len. simpl.
  destruct (L =? 0); [reflexivity|]. now destruct (0 <? L).
Qed.

(** An upload with at least one sample and a rate between 1 and [2^53]:
    [process_audio] returns, the text it shows is one [True] per second
    of audio (the last one possibly shorter), the two spectrograms are the
    same picture, and the one file it writes, [signed_audio.wav], holds
    the uploaded samples as converted to float32, at the uploaded rate. *)
Theorem process_audio_round_trip (X : Collaborators) (F : Frontend X)
    (sr : Z) (audio : list (raw F)) (s : app_state X) :
  matching_key_pair X ->
  audio <> [] -> 1 <= sr < 2 ^ 53 ->
  let W := map (astype_float32 F) audio in
  let picture := render F (melspectrogram X W sr) sr in
  exists s',
    process_audio X F (sr, audio) s =
      (Ok ("signed_audio.wav"%string,
           str_list_bool (repeat true (Z.to_nat (num_chunks (len audio) sr))),
           picture, picture), s') /\
    written s' = written s ++ [("signed_audio.wav"%string, W, sr)].
Proof.
  intros Hkeys Hne Hsr W picture.
  assert (HL : segment_length_of one sr = Ok sr)
    by (apply segment_length_default; lia).
  assert (HW : W <> []) by (unfold W; destruct audio; [congruence|discriminate]).
  assert (HlenW : len W = len audio) by (unfold len, W; now rewrite length_map).
  unfold process_audio, app_bind, in_core.
  fold W.
  rewrite (sign_run X W sr one sr (core s) HL ltac:(lia) HW).
  cbv zeta. cbv beta iota.
  rewrite (verify_run X W sr _ one sr _ HL ltac:(lia)).
  rewrite (verify_results_after_sign X W sr sr (entropy (core s)) Hkeys).
  rewrite HlenW.
  unfold visualize_mel_spectrogram, bind, call_melspectrogram, ret, sf_write,
    app_ret.
  cbn. fold picture.
  eexists. split; reflexivity.
Qed.

Lemma process_audio_round_trip_witness :
  exists s',
    process_audio Toy.X toy_frontend (2, [1; 2; 3; 4; 5]) (AppState Toy.w0 []) =
      (Ok ("signed_audio.wav"%string, "[True, True, True]"%string,
           ([1; 2; 3; 4; 5; 2], 2), ([1; 2; 3; 4; 5; 2], 2)), s') /\
    written s' = [] ++ [("signed_audio.wav"%string, [1; 2; 3; 4; 5], 2)].
Proof.
  apply (process_audio_round_trip Toy.X toy_frontend 2 [1; 2; 3; 4; 5]
           (AppState Toy.w0 [])).
  - exact toy_matching_key_pair.
  - discriminate.
  - split; [lia|reflexivity].
Defined.

(** An empty upload, or a rate that is not positive, makes
    [process_audio] raise [ValueError] out of the sign method: nothing is
    verified, plotted or written, and no collaborator has been called. *)
Theorem process_audio_rejects_empty_upload (X : Collaborators) (F : Frontend X)
    (sr : Z) (audio : list (raw F)) (s : app_state X) :
  - 2 ^ 53 < sr < 2 ^ 53 ->
  audio = [] \/ sr <= 0 ->
  process_audio X F (sr, audio) s = (Raise ValueError, s).
Proof.
  intros Hsr Hbad.
  assert (HL : segment_length_of one sr = Ok sr)
    by (apply segment_length_default; lia).
  assert (Hsign : segment_and_sign_audio X (map (astype_float32 F) audio) sr one
                    (core s) = (Raise ValueError, core s)).
  { destruct Hbad as [-> | Hle].
    - apply (sign_run_empty_length X sr one sr (core s) HL).
    - destruct (Z.eq_dec sr 0) as [-> | Hnz].
      + apply (sign_run_zero X _ 0 one (core s) HL).
      + apply (sign_run_negative X _ sr one sr (core s) HL). lia. }
  unfold process_audio, app_bind, in_core. rewrite Hsign.
  now destruct s.
Qed.

Lemma process_audio_rejects_empty_upload_witness :
  process_audio Toy.X toy_frontend (16000, []) (AppState Toy.w0 []) =
  (Raise ValueError, AppState Toy.w0 []).
Proof.
  apply (process_audio_rejects_empty_upload Toy.X toy_frontend 16000 []
           (AppState Toy.w0 [])).
  - split; reflexivity.
  - left. reflexivity.
Defined.
